(** * obsub: the observer pattern with decorated events

    A shallow embedding of [obsub.py] (classes [event] and [signal]) and the
    properties of connecting, disconnecting and emitting.

    Python objects live in a heap.  The handler lists are list objects that
    are shared by reference: an instance attribute and every signal made for
    that instance point to the same location.  Calling a Python value is the
    business of the interpreter, so the dispatch code is written over an
    arbitrary [apply]; a small interpreter for function bodies that connect,
    disconnect, emit, print and raise gives concrete programs to run.

    The attributes that [functools.update_wrapper] and [functools.wraps] copy
    ([__doc__], [__name__], [__wrapped__]) and [__signature__] are read by
    no operation of the module and are left out; arguments are checked
    against a signature where Python checks them, when a function is
    called. *)

From Stdlib Require Import ZArith String.
From stdpp Require Import base gmap list strings pretty.

Open Scope string_scope.
Open Scope list_scope.

(** ** Values, exceptions, arguments *)

(** The Python values the model ranges over.  Instances and functions are
    compared by identity, which is their name here; [==] on all of these
    values is decidable equality. *)
Inductive value :=
| VNone
| VInt (z : Z)
| VStr (s : string)
| VInst (o : string)     (* an instance of a user class *)
| VFunc (f : string).    (* a function object; [f] is its [__name__] *)

#[global] Instance value_eq_dec : EqDecision value.
Proof. solve_decision. Defined.

Definition value_code (v : value) : unit + (Z + (string + (string + string))) :=
  match v with
  | VNone => inl tt
  | VInt z => inr (inl z)
  | VStr s => inr (inr (inl s))
  | VInst o => inr (inr (inr (inl o)))
  | VFunc f => inr (inr (inr (inr f)))
  end.

Definition value_decode (c : unit + (Z + (string + (string + string)))) : value :=
  match c with
  | inl _ => VNone
  | inr (inl z) => VInt z
  | inr (inr (inl s)) => VStr s
  | inr (inr (inr (inl o))) => VInst o
  | inr (inr (inr (inr f))) => VFunc f
  end.

#[global] Instance value_countable : Countable value.
Proof. apply (inj_countable' value_code value_decode). by intros []. Defined.

Inductive exn :=
| TypeError
| ValueError
| AttributeError
| NameError
| RecursionError
| Exception (msg : string).

#[global] Instance exn_eq_dec : EqDecision exn.
Proof. solve_decision. Defined.

(** The actual arguments of a call [f( *args, **kwargs)]. *)
Record arguments := Arguments {
  args : list value;
  kwargs : list (string * value)
}.

#[global] Instance arguments_eq_dec : EqDecision arguments.
Proof. solve_decision. Defined.

Definition has_key (k : string) (kw : list (string * value)) : bool :=
  bool_decide (k ∈ kw.*1).

Fixpoint lookup_key (k : string) (kw : list (string * value)) : option value :=
  match kw with
  | [] => None
  | (k', v) :: kw' => if decide (k' = k) then Some v else lookup_key k kw'
  end.

Definition remove_key (k : string) (kw : list (string * value)) : list (string * value) :=
  filter (fun kv => kv.1 ≠ k) kw.

(** ** The heap *)

Abbreviation loc := nat.

(** [attrs] is the part of the instances' [__dict__]s that holds handler
    lists, [lists] the list objects themselves, [next] the next unused object
    identity, [stdout] what has been printed. *)
Record heap := Heap {
  attrs : gmap (value * string) loc;
  lists : gmap loc (list value);
  next : nat;
  stdout : list string
}.

Definition empty_heap : heap := Heap ∅ ∅ 0 [].

(** A call the dispatcher made: the callee and its arguments. *)
Definition call : Type := value * arguments.

Record state := State {
  st_heap : heap;
  st_calls : list call
}.

(** ** A state and exception monad *)

Inductive outcome (A : Type) :=
| Ok (a : A)
| Raise (e : exn).
Arguments Ok {A} a.
Arguments Raise {A} e.

Definition M (A : Type) : Type := state -> outcome A * state.

Definition ret {A} (a : A) : M A := fun st => (Ok a, st).

Definition raise {A} (e : exn) : M A := fun st => (Raise e, st).

Definition bind {A B} (m : M A) (k : A -> M B) : M B :=
  fun st =>
    match m st with
    | (Ok a, st') => k a st'
    | (Raise e, st') => (Raise e, st')
    end.

Notation "x <- m ;; k" := (bind m (fun x => k))
  (at level 100, m at next level, right associativity).
Notation "m ;;; k" := (bind m (fun _ => k))
  (at level 100, right associativity).

(** [try: m except e: handler] *)
Definition try_except {A} (m : M A) (e : exn) (handler : M A) : M A :=
  fun st =>
    match m st with
    | (Raise e', st') => if decide (e' = e) then handler st' else (Raise e', st')
    | r => r
    end.

Definition get_heap : M heap := fun st => (Ok (st_heap st), st).

Definition put_heap (h : heap) : M unit := fun st => (Ok tt, State h (st_calls st)).

(** Run a computation on a heap alone. *)
Definition on_heap {A} (m : M A) (h : heap) : outcome A * heap :=
  let (r, st) := m (State h []) in (r, st_heap st).

(** ** Heap primitives *)

(** The elements of the list at [l].  A location that holds no list reads
    as the empty list; the operations below never leave such a reference. *)
Definition handlers_at (h : heap) (l : loc) : list value :=
  default [] (lists h !! l).

Definition set_list (l : loc) (xs : list value) (h : heap) : heap :=
  Heap (attrs h) (<[l := xs]> (lists h)) (next h) (stdout h).

(** The heap once the identity [next h] is taken. *)
Definition bumped (h : heap) : heap :=
  Heap (attrs h) (lists h) (S (next h)) (stdout h).

(** The heap once [instance.key] refers to the list at [l]. *)
Definition attached (instance : value) (key : string) (l : loc) (h : heap) : heap :=
  Heap (<[(instance, key) := l]> (attrs h)) (lists h) (next h) (stdout h).

(** A new object identity. *)
Definition fresh : M nat :=
  h <- get_heap ;;
  put_heap (bumped h) ;;;
  ret (next h).

(** [[]]: a new, empty list object. *)
Definition new_list : M loc :=
  l <- fresh ;;
  h <- get_heap ;;
  put_heap (set_list l [] h) ;;;
  ret l.

(** The heap once [x] is appended to the list at [l]. *)
Definition appended (l : loc) (x : value) (h : heap) : heap :=
  set_list l (handlers_at h l ++ [x]) h.

(** [l.append(x)] *)
Definition list_append (l : loc) (x : value) : M unit :=
  h <- get_heap ;;
  put_heap (appended l x h).

(** The list without its first element equal to [x], if there is one. *)
Fixpoint remove_first (x : value) (xs : list value) : option (list value) :=
  match xs with
  | [] => None
  | y :: ys => if decide (y = x) then Some ys
               else match remove_first x ys with
                    | Some ys' => Some (y :: ys')
                    | None => None
                    end
  end.

(** [l.remove(x)]; [ValueError] when [x] is not in the list. *)
Definition list_remove (l : loc) (x : value) : M unit :=
  h <- get_heap ;;
  match remove_first x (handlers_at h l) with
  | Some xs => put_heap (set_list l xs h)
  | None => raise ValueError
  end.

(** [l[:]]: the elements now in the list, as a copy. *)
Definition list_copy (l : loc) : M (list value) :=
  h <- get_heap ;;
  ret (handlers_at h l).

(** Instances of user classes and functions carry a [__dict__]. *)
Definition has_dict (v : value) : bool :=
  match v with
  | VInst _ | VFunc _ => true
  | _ => false
  end.

Definition getattr (instance : value) (key : string) : M loc :=
  h <- get_heap ;;
  match attrs h !! (instance, key) with
  | Some l => ret l
  | None => raise AttributeError
  end.

Definition setattr (instance : value) (key : string) (l : loc) : M unit :=
  if has_dict instance then
    h <- get_heap ;;
    put_heap (attached instance key l h)
  else raise AttributeError.

Definition print (s : string) : M unit :=
  h <- get_heap ;;
  put_heap (Heap (attrs h) (lists h) (next h) (stdout h ++ [s])).

Fixpoint for_each {A B} (xs : list A) (body : A -> M B) : M unit :=
  match xs with
  | [] => ret tt
  | x :: xs' => body x ;;; for_each xs' body
  end.

(** ** The classes [signal] and [event] *)

(** [functools.partial(func, bound)]: [func] with its first positional
    argument fixed. *)
Record partial := Partial {
  func : value;
  bound : value
}.

(** A signal object: its identity, [__function] and the reference
    [__event_handlers].  The class is private to the module and
    [event.__get__] is its only caller, so [__function] is always the partial
    application of the event's function to the instance. *)
Record signal := Signal {
  sig_id : nat;
  sig_function : partial;
  sig_event_handlers : loc
}.

(** An event descriptor: [__function] and [__key]. *)
Record event := Event {
  ev_function : value;
  ev_key : string
}.

#[global] Instance event_eq_dec : EqDecision event.
Proof. solve_decision. Defined.

(** [event.__init__]: [signature(function)] rejects what is not callable;
    the key is a blank followed by the function's name. *)
Definition event_init (function : value) : outcome event :=
  match function with
  | VFunc name => Ok (Event function (" " +:+ name))
  | _ => Raise TypeError
  end.

Section Dispatch.

(** The interpreter: what calling a value with some arguments does to the
    heap, and what it returns or raises. *)
Variable apply : value -> arguments -> heap -> outcome value * heap.

(** [f( *args, **kwargs)], recorded in the list of calls. *)
Definition call_value (f : value) (a : arguments) : M value :=
  fun st =>
    let (r, h) := apply f a (st_heap st) in
    (r, State h (st_calls st ++ [(f, a)])).

Definition partial_arguments (p : partial) (a : arguments) : arguments :=
  Arguments (bound p :: args a) (kwargs a).

(** Calling a [functools.partial] object. *)
Definition call_partial (p : partial) (a : arguments) : M value :=
  call_value (func p) (partial_arguments p a).

(** [signal.__init__] *)
Definition signal_init (function : partial) (evt_handlers : option loc) : M signal :=
  id <- fresh ;;
  event_handlers <- match evt_handlers with
                    | None => new_list
                    | Some l => ret l
                    end ;;
  ret (Signal id function event_handlers).

(** [signal.connect] *)
Definition signal_connect (self : signal) (function : value) : M unit :=
  list_append (sig_event_handlers self) function.

(** [signal.disconnect] *)
Definition signal_disconnect (self : signal) (function : value) : M unit :=
  list_remove (sig_event_handlers self) function.

(** [signal.__call__], from the point where [a] is what was bound to
    [*args] and [**kwargs]. *)
Definition signal_call (self : signal) (a : arguments) : M value :=
  result <- call_partial (sig_function self) a ;;
  snapshot <- list_copy (sig_event_handlers self) ;;
  for_each snapshot (fun f => call_value f a) ;;;
  ret result.

(** The call expression [sig( *args, **kwargs)]: Python binds it to
    [__call__(self, *args, **kwargs)], where a keyword named [self] clashes
    with the first parameter. *)
Definition call_signal (sig : signal) (a : arguments) : M value :=
  if has_key "self" (kwargs a) then raise TypeError
  else signal_call sig a.

(** [event.__get__] for an instance that is not [None]. *)
Definition event_get (self : event) (instance : value) : M signal :=
  evt_handlers <- try_except (getattr instance (ev_key self)) AttributeError
                    (evt_handlers <- new_list ;;
                     setattr instance (ev_key self) evt_handlers ;;;
                     ret evt_handlers) ;;
  let func := Partial (ev_function self) instance in
  signal_init func (Some evt_handlers).

(** The function [wrapper(instance, *args, **kwargs)] that [event.__get__]
    returns for access through the class, called with positional arguments
    [pos] and keyword arguments [kw].  Its body is
    [self.__get__(instance, owner)( *args, **kwargs)]; when [instance] is
    [None] that is the wrapper again, on the remaining arguments. *)
Fixpoint wrapper (self : event) (owner : string)
    (pos : list value) (kw : list (string * value)) : M value :=
  match pos with
  | instance :: rest =>
      if has_key "instance" kw then raise TypeError
      else match instance with
           | VNone => wrapper self owner rest kw
           | _ => sig <- event_get self instance ;;
                  call_signal sig (Arguments rest kw)
           end
  | [] =>
      match lookup_key "instance" kw with
      | None => raise TypeError
      | Some VNone => raise TypeError
      | Some instance =>
          sig <- event_get self instance ;;
          call_signal sig (Arguments [] (remove_key "instance" kw))
      end
  end.

(** [instance.eventname.connect(function)] *)
Definition connect_to (e : event) (instance : value) (function : value) : M unit :=
  sig <- event_get e instance ;;
  signal_connect sig function.

(** [instance.eventname.disconnect(function)] *)
Definition disconnect_from (e : event) (instance : value) (function : value) : M unit :=
  sig <- event_get e instance ;;
  signal_disconnect sig function.

(** [instance.eventname] emitted: [__call__] runs with [a] bound to
    [*args] and [**kwargs]. *)
Definition emit (e : event) (instance : value) (a : arguments) : M value :=
  sig <- event_get e instance ;;
  signal_call sig a.

(** The call expression [instance.eventname( *args, **kwargs)] *)
Definition bound_call (e : event) (instance : value) (a : arguments) : M value :=
  sig <- event_get e instance ;;
  call_signal sig a.

(** What [event.__get__] returns: the function [wrapper], closed over the
    descriptor and the owner, or a signal. *)
Inductive accessed :=
| ByClass (self : event) (owner : string)
| ByInstance (sig : signal).

(** [event.__get__(instance, owner)], both branches. *)
Definition descriptor_get (self : event) (instance : value) (owner : string) : M accessed :=
  match instance with
  | VNone => ret (ByClass self owner)
  | _ => sig <- event_get self instance ;; ret (ByInstance sig)
  end.

(** Calling what [event.__get__] returned. *)
Definition call_accessed (x : accessed) (a : arguments) : M value :=
  match x with
  | ByClass self owner => wrapper self owner (args a) (kwargs a)
  | ByInstance sig => call_signal sig a
  end.

(** The call expression [Class.eventname(instance, *args, **kwargs)] *)
Definition unbound_call (e : event) (owner : string) (instance : value)
    (a : arguments) : M value :=
  w <- descriptor_get e VNone owner ;;
  call_accessed w (Arguments (instance :: args a) (kwargs a)).

(** *** Vocabulary for the statements *)

(** The call of the base function that a dispatch with arguments [a]
    makes. *)
Definition base_call (self : signal) (a : arguments) : call :=
  (func (sig_function self), partial_arguments (sig_function self) a).

(** The handlers [hs] called in order from heap [h], when each of them
    returns: the heap the last one leaves. *)
Fixpoint all_return (hs : list value) (a : arguments) (h : heap) : option heap :=
  match hs with
  | [] => Some h
  | f :: fs =>
      match apply f a h with
      | (Ok _, h') => all_return fs a h'
      | (Raise _, _) => None
      end
  end.

End Dispatch.

Definition handler_calls (hs : list value) (a : arguments) : list call :=
  map (fun f => (f, a)) hs.

(** The handlers registered for an instance and an event; none while no
    list is attached. *)
Definition handlers_of (e : event) (instance : value) (h : heap) : list value :=
  match attrs h !! (instance, ev_key e) with
  | Some l => handlers_at h l
  | None => []
  end.

(** The heaps the allocator produces: attached and stored lists have
    identities below [next], and no list is attached twice. *)
Definition heap_ok (h : heap) : Prop :=
  map_Forall (fun _ l => l < next h) (attrs h) /\
  map_Forall (fun l _ => l < next h) (lists h) /\
  map_Forall (fun k1 l1 =>
    map_Forall (fun k2 l2 => l1 = l2 -> k1 = k2) (attrs h)) (attrs h).

#[global] Instance heap_ok_dec (h : heap) : Decision (heap_ok h).
Proof. unfold heap_ok. apply _. Defined.

(** ** A small interpreter for function bodies

    Enough of Python to write base functions and handlers that print,
    connect, disconnect, emit, raise and return. *)

Inductive expr :=
| EConst (v : value)
| EVar (x : string).

Inductive stmt :=
| SPrint (e : expr)                                 (* print(e) *)
| SConnect (ev : event) (o : string) (h : value)    (* o.ev.connect(h) *)
| SDisconnect (ev : event) (o : string) (h : value) (* o.ev.disconnect(h) *)
| SEmit (ev : event) (o : string) (a : arguments)   (* o.ev(a) *)
| SRaise (e : exn)                                  (* raise e *)
| SReturn (e : expr).                               (* return e *)

(** A function definition; [params = None] stands for a function that takes
    any arguments. *)
Record fundef := Def {
  params : option (list string);
  body : list stmt
}.

Definition env : Type := list (string * value).

(** Positional arguments fill the parameters from the left; more arguments
    than parameters is an error.  Returns the parameters still unbound. *)
Fixpoint bind_positional (ps : list string) (pos : list value) : option (env * list string) :=
  match pos, ps with
  | [], _ => Some ([], ps)
  | _ :: _, [] => None
  | v :: pos', p :: ps' =>
      match bind_positional ps' pos' with
      | Some (en, rest) => Some ((p, v) :: en, rest)
      | None => None
      end
  end.

(** Each keyword argument must name a parameter that is still unbound. *)
Fixpoint bind_keywords (rest : list string) (kw : list (string * value)) : option (env * list string) :=
  match kw with
  | [] => Some ([], rest)
  | (k, v) :: kw' =>
      if bool_decide (k ∈ rest) then
        match bind_keywords (filter (fun p => p ≠ k) rest) kw' with
        | Some (en, rest') => Some ((k, v) :: en, rest')
        | None => None
        end
      else None
  end.

(** Binding the arguments of a call to the parameters; [None] is the
    [TypeError] of a call that does not fit the signature. *)
Definition bind_params (ps : option (list string)) (a : arguments) : option env :=
  match ps with
  | None => Some []
  | Some ps =>
      match bind_positional ps (args a) with
      | Some (en1, rest) =>
          match bind_keywords rest (kwargs a) with
          | Some (en2, []) => Some (en1 ++ en2)
          | _ => None
          end
      | None => None
      end
  end.

Definition show (v : value) : string :=
  match v with
  | VNone => "None"
  | VInt z => pretty z
  | VStr s => s
  | VInst o => "<" +:+ o +:+ ">"
  | VFunc f => "<function " +:+ f +:+ ">"
  end.

Definition eval (en : env) (e : expr) : M value :=
  match e with
  | EConst v => ret v
  | EVar x => match lookup_key x en with
              | Some v => ret v
              | None => raise NameError
              end
  end.

Fixpoint exec (apply : value -> arguments -> heap -> outcome value * heap)
    (en : env) (stmts : list stmt) : M value :=
  match stmts with
  | [] => ret VNone
  | SPrint e :: rest =>
      v <- eval en e ;; print (show v) ;;; exec apply en rest
  | SConnect ev o h :: rest =>
      connect_to ev (VInst o) h ;;; exec apply en rest
  | SDisconnect ev o h :: rest =>
      disconnect_from ev (VInst o) h ;;; exec apply en rest
  | SEmit ev o a :: rest =>
      bound_call apply ev (VInst o) a ;;; exec apply en rest
  | SRaise e :: _ => raise e
  | SReturn e :: _ => eval en e
  end.

(** Calling a value in a program [P].  Only functions are callable; [fuel]
    bounds the depth of nested calls, as the interpreter's recursion limit
    does. *)
Fixpoint run (P : gmap string fundef) (fuel : nat)
    (f : value) (a : arguments) (h : heap) : outcome value * heap :=
  match fuel with
  | 0 => (Raise RecursionError, h)
  | S fuel' =>
      match f with
      | VFunc name =>
          match P !! name with
          | Some d =>
              match bind_params (params d) a with
              | Some en => on_heap (exec (run P fuel') en (body d)) h
              | None => (Raise TypeError, h)
              end
          | None => (Raise NameError, h)
          end
      | _ => (Raise TypeError, h)
      end
  end.

(** What a computation returns and which calls it makes, from heap [h]. *)
Definition result_of {A} (m : M A) (h : heap) : outcome A :=
  (m (State h [])).1.

Definition calls_of {A} (m : M A) (h : heap) : list call :=
  st_calls (m (State h [])).2.

Definition heap_of {A} (m : M A) (h : heap) : heap :=
  st_heap (m (State h [])).2.


(** ** Programs to run

    A class with three events and some handlers:
    [progress(self, first, second)] prints and returns 7,
    [start(self)] connects the handler [late] to its own event,
    [notify(self, instance)] has a parameter called [instance]. *)

Definition inst_a : value := VInst "a".
Definition inst_b : value := VInst "b".

Definition progress : event := Event (VFunc "progress") " progress".
Definition start : event := Event (VFunc "start") " start".
Definition notify : event := Event (VFunc "notify") " notify".

Definition demo : gmap string fundef := list_to_map
  [("progress", Def (Some ["self"; "first"; "second"])
                  [SPrint (EConst (VStr "Doing something..."));
                   SReturn (EConst (VInt 7))]);
   ("h1", Def (Some ["first"; "second"])
            [SPrint (EVar "first"); SReturn (EConst (VInt 1))]);
   ("h2", Def (Some ["first"; "second"]) [SPrint (EVar "second")]);
   ("h3", Def None []);
   ("boom", Def None [SRaise (Exception "boom")]);
   ("leave", Def None [SDisconnect progress "a" (VFunc "leave")]);
   ("invite", Def None [SConnect progress "a" (VFunc "h3")]);
   ("start", Def (Some ["self"]) [SConnect start "a" (VFunc "late")]);
   ("late", Def (Some []) [SPrint (EConst (VStr "late"))]);
   ("notify", Def (Some ["self"; "instance"])
                [SPrint (EConst (VStr "Doing something..."))]);
   ("log", Def (Some ["instance"]) [SPrint (EVar "instance")])].

(** The interpreter for [demo], with room for nested calls. *)
Definition py : value -> arguments -> heap -> outcome value * heap := run demo 8.

(** ["Hello", second="World"] *)
Definition hello : arguments := Arguments [VStr "Hello"] [("second", VStr "World")].

(** [a.progress] once the given handlers are connected in order, and the
    heap then. *)
Definition connect_all (e : event) (instance : value) (hs : list value) : M signal :=
  for_each hs (connect_to e instance) ;;; event_get e instance.

Definition signal_with (e : event) (instance : value) (hs : list value) : signal :=
  match result_of (connect_all e instance hs) empty_heap with
  | Ok s => s
  | Raise _ => Signal 0 (Partial (ev_function e) instance) 0
  end.

Definition heap_with (e : event) (instance : value) (hs : list value) : heap :=
  heap_of (connect_all e instance hs) empty_heap.


(** * Properties *)

Ltac unfold_monad :=
  unfold bind, ret, raise, get_heap, put_heap, try_except in *; simpl in *.

(** Closed goals about the programs of [demo]: run them. *)
Ltac by_running := vm_compute; reflexivity.
Ltac by_deciding := apply (bool_decide_unpack _); vm_compute; exact I.

Section Properties.

Variable apply : value -> arguments -> heap -> outcome value * heap.

(** ** The loop over the snapshot *)

Lemma for_each_all_return (hs : list value) (a : arguments) (h h' : heap) (cs : list call) :
  all_return apply hs a h = Some h' ->
  for_each hs (fun f => call_value apply f a) (State h cs)
  = (Ok tt, State h' (cs ++ handler_calls hs a)).
Proof.
  revert h cs. induction hs as [|f fs IH]; intros h cs; simpl.
  - intros [= ->]. by rewrite app_nil_r.
  - unfold bind, call_value; simpl.
    destruct (apply f a h) as [[v|e] h1] eqn:E; [|done].
    intros Hfs. rewrite (IH _ _ Hfs). by rewrite <- app_assoc.
Qed.

Lemma for_each_raise (pre post : list value) (f : value) (a : arguments)
    (h h1 h2 : heap) (e : exn) (cs : list call) :
  all_return apply pre a h = Some h1 ->
  apply f a h1 = (Raise e, h2) ->
  for_each (pre ++ f :: post) (fun f => call_value apply f a) (State h cs)
  = (Raise e, State h2 (cs ++ handler_calls pre a ++ [(f, a)])).
Proof.
  revert h cs. induction pre as [|g pre IH]; intros h cs; simpl.
  - intros [= ->] Hf. unfold bind, call_value; simpl. by rewrite Hf.
  - unfold bind, call_value; simpl.
    destruct (apply g a h) as [[v|e'] h'] eqn:E; [|done].
    intros Hpre Hf. rewrite (IH _ _ Hpre Hf). by rewrite <- app_assoc.
Qed.

(** ** One dispatch *)

(** When the base function and the handlers return, the dispatch calls the
    base function and then the handlers that are in the list when the base
    function has returned. *)
Lemma signal_call_returns (self : signal) (a : arguments) (h h1 h2 : heap)
    (r : value) (cs : list call) :
  apply (func (sig_function self)) (partial_arguments (sig_function self) a) h = (Ok r, h1) ->
  all_return apply (handlers_at h1 (sig_event_handlers self)) a h1 = Some h2 ->
  signal_call apply self a (State h cs)
  = (Ok r, State h2 (cs ++ base_call self a
                        :: handler_calls (handlers_at h1 (sig_event_handlers self)) a)).
Proof.
  intros Hbase Hhs.
  unfold signal_call, call_partial, call_value, list_copy. unfold_monad.
  rewrite Hbase. simpl.
  rewrite (for_each_all_return _ _ _ _ _ Hhs). simpl.
  by rewrite <- app_assoc.
Qed.

Lemma signal_call_base_raises (self : signal) (a : arguments) (h h1 : heap)
    (e : exn) (cs : list call) :
  apply (func (sig_function self)) (partial_arguments (sig_function self) a) h = (Raise e, h1) ->
  signal_call apply self a (State h cs) = (Raise e, State h1 (cs ++ [base_call self a])).
Proof.
  intros Hbase.
  unfold signal_call, call_partial, call_value. unfold_monad.
  by rewrite Hbase.
Qed.

Lemma signal_call_handler_raises (self : signal) (a : arguments) (h h1 h2 h3 : heap)
    (r : value) (pre post : list value) (f : value) (e : exn) (cs : list call) :
  apply (func (sig_function self)) (partial_arguments (sig_function self) a) h = (Ok r, h1) ->
  handlers_at h1 (sig_event_handlers self) = pre ++ f :: post ->
  all_return apply pre a h1 = Some h2 ->
  apply f a h2 = (Raise e, h3) ->
  signal_call apply self a (State h cs)
  = (Raise e, State h3 (cs ++ base_call self a :: handler_calls pre a ++ [(f, a)])).
Proof.
  intros Hbase Hsnap Hpre Hf.
  unfold signal_call, call_partial, call_value, list_copy. unfold_monad.
  rewrite Hbase. simpl. rewrite Hsnap.
  rewrite (for_each_raise _ _ _ _ _ _ _ _ _ Hpre Hf). simpl.
  by rewrite <- app_assoc.
Qed.

(** Without a keyword named [self], the call expression is the dispatch. *)
Lemma call_signal_signal_call (sig : signal) (a : arguments) :
  has_key "self" (kwargs a) = false ->
  call_signal apply sig a = signal_call apply sig a.
Proof. intros Hkey. unfold call_signal. by rewrite Hkey. Qed.

(** ** The handler list *)

Lemma handlers_at_set_list (l : loc) (xs : list value) (h : heap) :
  handlers_at (set_list l xs h) l = xs.
Proof. unfold handlers_at, set_list; simpl. by rewrite lookup_insert_eq. Qed.

Lemma handlers_at_set_list_ne (l l' : loc) (xs : list value) (h : heap) :
  l <> l' -> handlers_at (set_list l xs h) l' = handlers_at h l'.
Proof. intros Hne. unfold handlers_at, set_list; simpl. by rewrite lookup_insert_ne. Qed.

Lemma handlers_at_appended (l : loc) (f : value) (h : heap) :
  handlers_at (appended l f h) l = handlers_at h l ++ [f].
Proof. apply handlers_at_set_list. Qed.

Lemma signal_connect_eq (self : signal) (f : value) (h : heap) (cs : list call) :
  signal_connect self f (State h cs)
  = (Ok tt, State (appended (sig_event_handlers self) f h) cs).
Proof. reflexivity. Qed.

Lemma remove_first_absent (f : value) (xs : list value) :
  f ∉ xs -> remove_first f xs = None.
Proof.
  induction xs as [|y ys IH]; simpl; [done|].
  intros Hnotin. apply not_elem_of_cons in Hnotin as [Hne Hys].
  destruct (decide (y = f)) as [->|_]; [done|]. by rewrite IH.
Qed.

Lemma remove_first_present (f : value) (pre post : list value) :
  f ∉ pre -> remove_first f (pre ++ f :: post) = Some (pre ++ post).
Proof.
  induction pre as [|y ys IH]; simpl.
  - intros _. by destruct (decide (f = f)).
  - intros Hnotin. apply not_elem_of_cons in Hnotin as [Hne Hys].
    destruct (decide (y = f)) as [->|_]; [done|]. by rewrite IH.
Qed.

(** ** The claims about [signal] *)

(** C1: a signal whose registered handlers are h1, ..., hn, invoked with
    any arguments, calls the base function once with these arguments, then
    h1, ..., hn in registration order, each once per registration and with
    the same arguments; it returns what the base function returned and
    drops what the handlers returned.  (The base function and the handlers
    return, and the base function leaves the registrations as they are.) *)
Theorem signal_call_order (self : signal) (a : arguments) (h h1 h2 : heap)
    (r : value) (cs : list call) :
  apply (func (sig_function self)) (partial_arguments (sig_function self) a) h = (Ok r, h1) ->
  handlers_at h1 (sig_event_handlers self) = handlers_at h (sig_event_handlers self) ->
  all_return apply (handlers_at h (sig_event_handlers self)) a h1 = Some h2 ->
  signal_call apply self a (State h cs)
  = (Ok r, State h2 (cs ++ base_call self a
                        :: handler_calls (handlers_at h (sig_event_handlers self)) a)).
Proof.
  intros Hbase Hkeep Hhs. rewrite <- Hkeep in *.
  by apply signal_call_returns.
Qed.

(** C2: when the base function raises, which covers arguments that do not
    fit its signature, the exception propagates and no handler is called;
    when a handler raises, the exception propagates and the handlers after
    it in the snapshot are not called. *)
Theorem signal_call_fail_fast (self : signal) (a : arguments) (h : heap) (cs : list call) :
  (forall e h1,
    apply (func (sig_function self)) (partial_arguments (sig_function self) a) h = (Raise e, h1) ->
    signal_call apply self a (State h cs) = (Raise e, State h1 (cs ++ [base_call self a])))
  /\
  (forall r h1 pre f post h2 e h3,
    apply (func (sig_function self)) (partial_arguments (sig_function self) a) h = (Ok r, h1) ->
    handlers_at h1 (sig_event_handlers self) = pre ++ f :: post ->
    all_return apply pre a h1 = Some h2 ->
    apply f a h2 = (Raise e, h3) ->
    signal_call apply self a (State h cs)
    = (Raise e, State h3 (cs ++ base_call self a :: handler_calls pre a ++ [(f, a)]))).
Proof.
  split.
  - intros e h1. apply signal_call_base_raises.
  - intros r h1 pre f post h2 e h3. apply signal_call_handler_raises.
Qed.

(** C5: a dispatch calls the handlers of the snapshot taken when the base
    function has returned, whatever the handlers do to the list meanwhile
    (disconnect themselves, connect or disconnect others); the next
    dispatch calls the handlers of the list as they left it. *)
Theorem signal_call_snapshot (self : signal) (a a' : arguments)
    (h h1 h2 h3 h4 : heap) (r r' : value) (cs : list call) :
  apply (func (sig_function self)) (partial_arguments (sig_function self) a) h = (Ok r, h1) ->
  all_return apply (handlers_at h1 (sig_event_handlers self)) a h1 = Some h2 ->
  apply (func (sig_function self)) (partial_arguments (sig_function self) a') h2 = (Ok r', h3) ->
  handlers_at h3 (sig_event_handlers self) = handlers_at h2 (sig_event_handlers self) ->
  all_return apply (handlers_at h2 (sig_event_handlers self)) a' h3 = Some h4 ->
  (signal_call apply self a ;;; signal_call apply self a') (State h cs)
  = (Ok r', State h4
       ((cs ++ base_call self a
            :: handler_calls (handlers_at h1 (sig_event_handlers self)) a)
           ++ base_call self a'
            :: handler_calls (handlers_at h2 (sig_event_handlers self)) a')).
Proof.
  intros Hbase Hhs Hbase' Hkeep Hhs'. rewrite <- Hkeep in *.
  unfold bind.
  rewrite (signal_call_returns _ _ _ _ _ _ _ Hbase Hhs).
  by rewrite (signal_call_returns _ _ _ _ _ _ _ Hbase' Hhs').
Qed.

(** C6: [connect] does not look for duplicates: a handler connected twice
    is in the list twice and a following invocation calls it twice;
    [disconnect] removes the first entry equal to the handler and keeps
    the later ones. *)
Theorem connect_twice_disconnect_first (self : signal) (f : value) (h : heap) (cs : list call) :
  let l := sig_event_handlers self in
  let h' := appended l f (appended l f h) in
  ((signal_connect self f ;;; signal_connect self f) (State h cs) = (Ok tt, State h' cs)
   /\ handlers_at h' l = handlers_at h l ++ [f; f])
  /\
  (forall a r h1 h2,
    apply (func (sig_function self)) (partial_arguments (sig_function self) a) h' = (Ok r, h1) ->
    handlers_at h1 l = handlers_at h' l ->
    all_return apply (handlers_at h' l) a h1 = Some h2 ->
    signal_call apply self a (State h' cs)
    = (Ok r, State h2 (cs ++ base_call self a
                          :: handler_calls (handlers_at h l) a ++ [(f, a); (f, a)])))
  /\
  (forall pre post,
    handlers_at h l = pre ++ f :: post ->
    f ∉ pre ->
    signal_disconnect self f (State h cs) = (Ok tt, State (set_list l (pre ++ post) h) cs)
    /\ handlers_at (set_list l (pre ++ post) h) l = pre ++ post).
Proof.
  intros l h'.
  assert (Hh' : handlers_at h' l = handlers_at h l ++ [f; f]).
  { unfold h'. rewrite !handlers_at_appended. by rewrite <- app_assoc. }
  split; [split; [reflexivity | exact Hh'] |]. split.
  - intros a r h1 h2 Hbase Hkeep Hhs.
    rewrite <- Hkeep in Hhs.
    rewrite (signal_call_returns _ _ _ _ _ _ _ Hbase Hhs).
    fold l. rewrite Hkeep, Hh'. unfold handler_calls. by rewrite map_app.
  - intros pre post Hl Hpre. split; [|apply handlers_at_set_list].
    unfold signal_disconnect, list_remove. unfold_monad.
    fold l. rewrite Hl. by rewrite (remove_first_present _ _ _ Hpre).
Qed.

(** C7: disconnecting a handler that is not in the list raises
    [ValueError] and changes nothing: the list, and the whole state, are
    as before. *)
Theorem disconnect_absent (self : signal) (f : value) (h : heap) (cs : list call) :
  f ∉ handlers_at h (sig_event_handlers self) ->
  signal_disconnect self f (State h cs) = (Raise ValueError, State h cs).
Proof.
  intros Hnotin.
  unfold signal_disconnect, list_remove. unfold_monad.
  by rewrite (remove_first_absent _ _ Hnotin).
Qed.

(** C9: the snapshot is taken when the base function has returned: a
    handler that the base function connects during an invocation is called
    in that invocation; a handler that another handler connects during the
    dispatch is not. *)
Theorem snapshot_after_base (self : signal) (a : arguments) (g : value)
    (h : heap) (cs : list call) :
  let l := sig_event_handlers self in
  (forall r h1 h2,
    apply (func (sig_function self)) (partial_arguments (sig_function self) a) h = (Ok r, h1) ->
    handlers_at h1 l = handlers_at h l ++ [g] ->
    all_return apply (handlers_at h l ++ [g]) a h1 = Some h2 ->
    signal_call apply self a (State h cs)
    = (Ok r, State h2 (cs ++ base_call self a
                          :: handler_calls (handlers_at h l) a ++ [(g, a)])))
  /\
  (forall r h1 h2,
    apply (func (sig_function self)) (partial_arguments (sig_function self) a) h = (Ok r, h1) ->
    handlers_at h1 l = handlers_at h l ->
    all_return apply (handlers_at h l) a h1 = Some h2 ->
    handlers_at h2 l = handlers_at h l ++ [g] ->
    signal_call apply self a (State h cs)
    = (Ok r, State h2 (cs ++ base_call self a :: handler_calls (handlers_at h l) a))).
Proof.
  intros l. split.
  - intros r h1 h2 Hbase Hconn Hhs. rewrite <- Hconn in Hhs.
    rewrite (signal_call_returns _ _ _ _ _ _ _ Hbase Hhs).
    fold l. rewrite Hconn. unfold handler_calls. by rewrite map_app.
  - intros r h1 h2 Hbase Hkeep Hhs _. rewrite <- Hkeep in Hhs.
    rewrite (signal_call_returns _ _ _ _ _ _ _ Hbase Hhs).
    fold l. by rewrite Hkeep.
Qed.

(** C10: [connect] never fails and does not look at the handler: for
    every signal and every value it returns with the value appended as one
    entry at the end of the handler list; the entries before it, every
    other list and the attributes are untouched. *)
Theorem connect_appends (self : signal) (f : value) (h : heap) (cs : list call) :
  let l := sig_event_handlers self in
  signal_connect self f (State h cs) = (Ok tt, State (appended l f h) cs)
  /\ handlers_at (appended l f h) l = handlers_at h l ++ [f]
  /\ (forall l', l' <> l -> lists (appended l f h) !! l' = lists h !! l')
  /\ attrs (appended l f h) = attrs h.
Proof.
  intros l. split; [reflexivity|]. split; [apply handlers_at_appended|].
  split; [|reflexivity].
  intros l' Hne. unfold appended, set_list; simpl. by rewrite lookup_insert_ne.
Qed.

(** ** Attribute access *)

(** The key under which an event keeps its lists: a blank and the name of
    the decorated function. *)
Lemma event_init_key (function : value) (e : event) :
  event_init function = Ok e ->
  exists name, function = VFunc name /\ ev_function e = function /\ ev_key e = " " +:+ name.
Proof.
  destruct function as [| | | |name]; simpl; try done.
  intros [= <-]. by exists name.
Qed.

Lemma event_get_attached (e : event) (instance : value) (l : loc) (h : heap) (cs : list call) :
  attrs h !! (instance, ev_key e) = Some l ->
  event_get e instance (State h cs)
  = (Ok (Signal (next h) (Partial (ev_function e) instance) l), State (bumped h) cs).
Proof.
  intros Hl. unfold event_get, signal_init, getattr, fresh. unfold_monad.
  by rewrite Hl.
Qed.

Lemma event_get_new (e : event) (instance : value) (h : heap) (cs : list call) :
  attrs h !! (instance, ev_key e) = None ->
  has_dict instance = true ->
  event_get e instance (State h cs)
  = (Ok (Signal (S (next h)) (Partial (ev_function e) instance) (next h)),
     State (bumped (attached instance (ev_key e) (next h)
                      (set_list (next h) [] (bumped h)))) cs).
Proof.
  intros Hl Hdict.
  unfold event_get, signal_init, getattr, setattr, new_list, fresh. unfold_monad.
  rewrite Hl. simpl. by rewrite Hdict.
Qed.

Lemma heap_ok_bumped (h : heap) : heap_ok h -> heap_ok (bumped h).
Proof.
  intros (Ha & Hl & Hinj). repeat split; simpl; [| |done].
  - intros k l Hk. specialize (Ha k l Hk). simpl in Ha. lia.
  - intros l xs Hk. specialize (Hl l xs Hk). simpl in Hl. lia.
Qed.

Lemma heap_ok_set_list (l : loc) (xs : list value) (h : heap) :
  heap_ok h -> l < next h -> heap_ok (set_list l xs h).
Proof.
  intros (Ha & Hl & Hinj) Hlt. repeat split; simpl; [done| |done].
  intros l' xs' Hk. apply lookup_insert_Some in Hk as [[<- _]|[_ Hk]]; [done|].
  by apply (Hl l' xs').
Qed.

Lemma heap_ok_attached (instance : value) (key : string) (l : loc) (h : heap) :
  heap_ok h -> l < next h ->
  attrs h !! (instance, key) = None ->
  (forall k, attrs h !! k <> Some l) ->
  heap_ok (attached instance key l h).
Proof.
  intros (Ha & Hl & Hinj) Hlt Hnone Hunused. repeat split; simpl; [|done|].
  - intros k l' Hk. apply lookup_insert_Some in Hk as [[_ <-]|[_ Hk]]; [done|].
    by apply (Ha k l').
  - intros k1 l1 Hk1 k2 l2 Hk2 Heq. subst l2.
    apply lookup_insert_Some in Hk1 as [[<- <-]|[Hne1 Hk1]];
      apply lookup_insert_Some in Hk2 as [[<- Hl2]|[Hne2 Hk2]]; try done.
    + by destruct (Hunused k2).
    + subst l1. by destruct (Hunused k1).
    + by apply (Hinj k1 l1 Hk1 k2 l1 Hk2).
Qed.

Lemma heap_ok_attr_lt (h : heap) (k : value * string) (l : loc) :
  heap_ok h -> attrs h !! k = Some l -> l < next h.
Proof. intros (Ha & _ & _) Hk. exact (Ha k l Hk). Qed.

Lemma heap_ok_attr_inj (h : heap) (k1 k2 : value * string) (l : loc) :
  heap_ok h -> attrs h !! k1 = Some l -> attrs h !! k2 = Some l -> k1 = k2.
Proof. intros (_ & _ & Hinj) Hk1 Hk2. exact (Hinj k1 l Hk1 k2 l Hk2 eq_refl). Qed.

Lemma heap_ok_list_fresh (h : heap) : heap_ok h -> lists h !! next h = None.
Proof.
  intros (_ & Hl & _). destruct (lists h !! next h) as [xs|] eqn:E; [|done].
  specialize (Hl _ _ E). simpl in Hl. lia.
Qed.

(** Access through an instance returns a signal on the instance's list and
    keeps every registration. *)
Lemma event_get_ok (e : event) (instance : value) (h : heap) (cs : list call) :
  has_dict instance = true -> heap_ok h ->
  exists s h',
    event_get e instance (State h cs) = (Ok s, State h' cs)
    /\ heap_ok h'
    /\ sig_function s = Partial (ev_function e) instance
    /\ attrs h' !! (instance, ev_key e) = Some (sig_event_handlers s)
    /\ handlers_at h' (sig_event_handlers s) = handlers_of e instance h
    /\ (forall e' B, handlers_of e' B h' = handlers_of e' B h).
Proof.
  intros Hdict Hok.
  destruct (attrs h !! (instance, ev_key e)) as [l|] eqn:Hl.
  - eexists _, _. split; [by apply event_get_attached|].
    split; [by apply heap_ok_bumped|]. split; [done|]. split; [done|].
    split; [|done]. unfold handlers_of. by rewrite Hl.
  - eexists _, _. split; [by apply event_get_new|].
    split.
    { apply heap_ok_bumped, heap_ok_attached; simpl; try done; try lia.
      - apply heap_ok_set_list; [by apply heap_ok_bumped | simpl; lia].
      - intros k Hk. apply (heap_ok_attr_lt _ _ _ Hok) in Hk. lia. }
    split; [done|]. simpl. split; [by rewrite lookup_insert_eq|].
    split.
    { unfold handlers_of, handlers_at; simpl. by rewrite Hl, lookup_insert_eq. }
    intros e' B. unfold handlers_of, handlers_at; simpl.
    destruct (decide ((instance, ev_key e) = (B, ev_key e'))) as [Heq|Hne].
    + rewrite <- Heq. by rewrite Hl, !lookup_insert_eq.
    + rewrite lookup_insert_ne by done.
      destruct (attrs h !! (B, ev_key e')) as [l'|] eqn:Hl'; [|done].
      apply (heap_ok_attr_lt _ _ _ Hok) in Hl'.
      rewrite lookup_insert_ne; [done | lia].
Qed.

(** Connecting to an instance's event appends to that instance's list for
    that event and to no other. *)
Lemma connect_to_ok (e : event) (A : value) (f : value) (h : heap) (cs : list call) :
  has_dict A = true -> heap_ok h ->
  exists h',
    connect_to e A f (State h cs) = (Ok tt, State h' cs)
    /\ heap_ok h'
    /\ handlers_of e A h' = handlers_of e A h ++ [f]
    /\ (forall e' B, (B, ev_key e') <> (A, ev_key e) ->
          handlers_of e' B h' = handlers_of e' B h).
Proof.
  intros Hdict Hok.
  destruct (event_get_ok e A h cs Hdict Hok) as (s & h1 & Hget & Hok1 & _ & Hattr & Hhs & Hothers).
  exists (appended (sig_event_handlers s) f h1).
  split. { unfold connect_to, bind. by rewrite Hget. }
  split. { apply heap_ok_set_list; [done|]. by apply (heap_ok_attr_lt _ _ _ Hok1) in Hattr. }
  split.
  - unfold handlers_of at 1. simpl. rewrite Hattr.
    by rewrite handlers_at_appended, Hhs.
  - intros e' B Hne. rewrite <- (Hothers e' B).
    unfold handlers_of. simpl.
    destruct (attrs h1 !! (B, ev_key e')) as [l'|] eqn:Hl'; [|done].
    apply handlers_at_set_list_ne. intros <-.
    apply Hne. by apply (heap_ok_attr_inj _ _ _ _ Hok1 Hl' Hattr).
Qed.

(** ** The claims about [event] *)

(** C3: every pair of an instance and an event has its own handler list.
    With a handler connected to B's event and a handler connected to A's
    event, A's list is A's earlier handlers and the new one, B's handler goes
    to B's list, and invoking A's event calls the base function and A's
    handlers: a handler connected only to B's event is not among them. *)
Theorem instances_isolated (e : event) (A B hA hB : value) (a : arguments) (h : heap) :
  heap_ok h -> A <> B -> has_dict A = true -> has_dict B = true ->
  exists sA h2,
    on_heap (connect_to e B hB ;;; connect_to e A hA ;;; event_get e A) h = (Ok sA, h2)
    /\ handlers_at h2 (sig_event_handlers sA) = handlers_of e A h ++ [hA]
    /\ handlers_of e B h2 = handlers_of e B h ++ [hB]
    /\ (hB ∉ handlers_of e A h -> hB <> hA ->
        hB ∉ handlers_at h2 (sig_event_handlers sA))
    /\ (forall r h3 h4,
          apply (ev_function e) (Arguments (A :: args a) (kwargs a)) h2 = (Ok r, h3) ->
          handlers_at h3 (sig_event_handlers sA) = handlers_at h2 (sig_event_handlers sA) ->
          all_return apply (handlers_at h2 (sig_event_handlers sA)) a h3 = Some h4 ->
          (connect_to e B hB ;;; connect_to e A hA ;;; emit apply e A a) (State h [])
          = (Ok r, State h4 ((ev_function e, Arguments (A :: args a) (kwargs a))
                               :: handler_calls (handlers_of e A h ++ [hA]) a))).
Proof.
  intros Hok HAB HdA HdB.
  assert (HkAB : (A, ev_key e) <> (B, ev_key e)) by (intros [= ?]; by apply HAB).
  destruct (connect_to_ok e B hB h [] HdB Hok) as (hb & HcB & Hokb & HhsB & HothB).
  destruct (connect_to_ok e A hA hb [] HdA Hokb) as (ha & HcA & Hoka & HhsA & HothA).
  destruct (event_get_ok e A ha [] HdA Hoka) as (sA & h2 & Hget & _ & Hfun & _ & Hat & Hsame).
  assert (Hlist : handlers_at h2 (sig_event_handlers sA) = handlers_of e A h ++ [hA]).
  { rewrite Hat, HhsA. by rewrite HothB. }
  exists sA, h2. split; [|split; [|split; [|split]]].
  - unfold on_heap, bind. by rewrite HcB, HcA, Hget.
  - exact Hlist.
  - rewrite Hsame, HothA, HhsB; [done|]. by intros [= ?].
  - intros HnB Hne. rewrite Hlist. intros Hin.
    apply elem_of_app in Hin as [Hin|Hin]; [done|].
    by apply list_elem_of_singleton in Hin.
  - intros r h3 h4 Hbase Hkeep Hhs.
    unfold emit, bind. rewrite HcB, HcA, Hget.
    rewrite <- Hkeep in Hhs.
    assert (Hbase' : apply (func (sig_function sA))
              (partial_arguments (sig_function sA) a) h2 = (Ok r, h3))
      by (by rewrite Hfun).
    rewrite (signal_call_returns _ _ _ _ _ _ _ Hbase' Hhs).
    unfold base_call. rewrite Hfun, Hkeep, Hlist. reflexivity.
Qed.

(** C8: the first access through an instance attaches a new, empty handler
    list to the instance under the event's key; every later access returns
    a new signal object on that same list; so a handler connected through
    one access is called by an invocation made through a later access. *)
Theorem first_access_attaches (e : event) (instance f : value) (h : heap) (cs : list call) :
  has_dict instance = true -> heap_ok h ->
  attrs h !! (instance, ev_key e) = None ->
  let l := next h in
  let base := Partial (ev_function e) instance in
  let h1 := bumped (attached instance (ev_key e) l (set_list l [] (bumped h))) in
  (event_get e instance (State h cs) = (Ok (Signal (S l) base l), State h1 cs)
   /\ lists h !! l = None
   /\ lists h1 !! l = Some []
   /\ attrs h1 !! (instance, ev_key e) = Some l)
  /\
  (forall h' cs', attrs h' !! (instance, ev_key e) = Some l ->
    event_get e instance (State h' cs')
    = (Ok (Signal (next h') base l), State (bumped h') cs'))
  /\
  (event_get e instance (State h1 cs) = (Ok (Signal (S (S l)) base l), State (bumped h1) cs)
   /\ Signal (S (S l)) base l <> Signal (S l) base l)
  /\
  (forall a r h3 h4,
    let h2 := bumped (appended l f h1) in
    apply (ev_function e) (Arguments (instance :: args a) (kwargs a)) h2 = (Ok r, h3) ->
    handlers_at h3 l = handlers_at h2 l ->
    all_return apply [f] a h3 = Some h4 ->
    (s1 <- event_get e instance ;;
     signal_connect s1 f ;;;
     s2 <- event_get e instance ;;
     signal_call apply s2 a) (State h cs)
    = (Ok r, State h4 (cs ++ [(ev_function e, Arguments (instance :: args a) (kwargs a));
                              (f, a)]))).
Proof.
  intros Hdict Hok Hnone l base h1.
  assert (Hfirst : event_get e instance (State h cs)
                   = (Ok (Signal (S l) base l), State h1 cs))
    by (by apply event_get_new).
  assert (Hattr : attrs h1 !! (instance, ev_key e) = Some l)
    by (simpl; by rewrite lookup_insert_eq).
  assert (Hlater : forall h' cs', attrs h' !! (instance, ev_key e) = Some l ->
            event_get e instance (State h' cs')
            = (Ok (Signal (next h') base l), State (bumped h') cs'))
    by (intros h' cs' Hl; by apply event_get_attached).
  split; [|split; [|split]].
  - split; [done|]. split; [by apply heap_ok_list_fresh|].
    split; [|done]. simpl. by rewrite lookup_insert_eq.
  - done.
  - split; [exact (Hlater h1 cs Hattr)|]. intros [= Hid]. lia.
  - intros a r h3 h4 h2 Hbase Hkeep Hhs.
    assert (Hlist : handlers_at h2 l = [f]).
    { assert (Hempty : handlers_at h1 l = [])
        by apply (handlers_at_set_list l [] (bumped h)).
      change (handlers_at h2 l) with (handlers_at (appended l f h1) l).
      by rewrite handlers_at_appended, Hempty. }
    unfold bind. rewrite Hfirst. rewrite signal_connect_eq. simpl sig_event_handlers.
    rewrite (Hlater (appended l f h1) cs Hattr).
    fold h2. rewrite <- Hlist, <- Hkeep in Hhs.
    rewrite (signal_call_returns (Signal (next (appended l f h1)) base l)
               a h2 h3 h4 r cs Hbase Hhs).
    simpl sig_event_handlers. rewrite Hkeep, Hlist. reflexivity.
Qed.

(** The wrapper's body is [self.__get__(instance, owner)( *args, **kwargs)]. *)
Lemma wrapper_body (self : event) (owner : string) (instance : value)
    (rest : list value) (kw : list (string * value)) (st : state) :
  wrapper apply self owner (instance :: rest) kw st
  = if has_key "instance" kw then raise TypeError st
    else (x <- descriptor_get self instance owner ;;
          call_accessed apply x (Arguments rest kw)) st.
Proof.
  simpl. destruct (has_key "instance" kw); [done|].
  destruct instance; try done; unfold descriptor_get, bind, ret;
    by destruct (event_get self _ st) as [[sig|err] st'].
Qed.

(** Access through the class agrees with access through the instance as
    long as no keyword argument is named like the wrapper's own first
    parameter. *)
Lemma unbound_call_bound_call (e : event) (owner : string) (instance : value) (a : arguments) :
  instance <> VNone ->
  has_key "instance" (kwargs a) = false ->
  unbound_call apply e owner instance a = bound_call apply e instance a.
Proof.
  intros Hnone Hkey.
  change (unbound_call apply e owner instance a)
    with (wrapper apply e owner (instance :: args a) (kwargs a)).
  unfold bound_call; simpl.
  rewrite Hkey. destruct a as [pos kw]. by destruct instance.
Qed.

End Properties.

(** * Further properties of the module *)

Section More.

Variable apply : value -> arguments -> heap -> outcome value * heap.

(** ** [list.remove] *)

Lemma remove_first_member (f : value) (xs : list value) :
  f ∈ xs ->
  exists pre post,
    xs = pre ++ f :: post /\ (f ∉ pre) /\ remove_first f xs = Some (pre ++ post).
Proof.
  intros Hin. destruct (list_elem_of_split_l xs f Hin) as (pre & post & -> & Hpre).
  exists pre, post. split; [done|]. split; [done|]. by apply remove_first_present.
Qed.


(** ** More on attribute access *)

Lemma event_get_no_dict (e : event) (instance : value) (h : heap) (cs : list call) :
  attrs h !! (instance, ev_key e) = None ->
  has_dict instance = false ->
  event_get e instance (State h cs)
  = (Raise AttributeError, State (set_list (next h) [] (bumped h)) cs).
Proof.
  intros Hl Hdict.
  unfold event_get, signal_init, getattr, setattr, new_list, fresh. unfold_monad.
  rewrite Hl. simpl. by rewrite Hdict.
Qed.

Lemma handlers_at_bumped (h : heap) (l : loc) : handlers_at (bumped h) l = handlers_at h l.
Proof. reflexivity. Qed.

Lemma heap_ok_new_list (h : heap) : heap_ok h -> heap_ok (set_list (next h) [] (bumped h)).
Proof.
  intros Hok. apply heap_ok_set_list; [by apply heap_ok_bumped | simpl; lia].
Qed.

Lemma handlers_of_new_list (e : event) (B : value) (h : heap) :
  heap_ok h -> handlers_of e B (set_list (next h) [] (bumped h)) = handlers_of e B h.
Proof.
  intros Hok. unfold handlers_of; simpl.
  destruct (attrs h !! (B, ev_key e)) as [l|] eqn:Hl; [|done].
  apply (heap_ok_attr_lt _ _ _ Hok) in Hl.
  rewrite handlers_at_set_list_ne; [done | lia].
Qed.

(** Whatever it returns, an access leaves a heap of the allocator, keeps
    the call log and every registration; a signal it returns is on an
    allocated list. *)
Lemma event_get_any_outcome (e : event) (instance : value) (h : heap) (cs : list call)
    (r : outcome signal) (st : state) :
  heap_ok h ->
  event_get e instance (State h cs) = (r, st) ->
  heap_ok (st_heap st)
  /\ st_calls st = cs
  /\ (forall e' B, handlers_of e' B (st_heap st) = handlers_of e' B h)
  /\ (forall s, r = Ok s -> sig_event_handlers s < next (st_heap st)).
Proof.
  intros Hok Hget.
  destruct (attrs h !! (instance, ev_key e)) as [l|] eqn:Hl.
  - rewrite (event_get_attached _ _ _ _ _ Hl) in Hget. injection Hget as <- <-.
    split; [by apply heap_ok_bumped|]. split; [done|]. split; [done|].
    intros s [= <-]. simpl. apply (heap_ok_attr_lt _ _ _ Hok) in Hl. lia.
  - destruct (has_dict instance) eqn:Hdict.
    + destruct (event_get_ok e instance h cs Hdict Hok)
        as (s & h' & Hget' & Hok' & _ & Hattr & _ & Hsame).
      rewrite Hget' in Hget. injection Hget as <- <-. simpl.
      split; [done|]. split; [done|]. split; [done|].
      intros s' [= <-]. by apply (heap_ok_attr_lt _ _ _ Hok') in Hattr.
    + rewrite (event_get_no_dict _ _ _ _ Hl Hdict) in Hget. injection Hget as <- <-.
      simpl. split; [by apply heap_ok_new_list|]. split; [done|].
      split; [intros e' B; by apply handlers_of_new_list | done].
Qed.

(** ** Properties *)

(** Access, connect, disconnect and the construction of a signal keep the
    heap one of the allocator's, whether they return or raise. *)
Theorem operations_keep_heap_ok (e : event) (instance f : value) (p : partial)
    (h : heap) (cs : list call) :
  heap_ok h ->
  heap_ok (st_heap (event_get e instance (State h cs)).2)
  /\ heap_ok (st_heap (connect_to e instance f (State h cs)).2)
  /\ heap_ok (st_heap (disconnect_from e instance f (State h cs)).2)
  /\ heap_ok (st_heap (signal_init p None (State h cs)).2).
Proof.
  intros Hok.
  destruct (event_get e instance (State h cs)) as [r st] eqn:Hget.
  destruct (event_get_any_outcome e instance h cs r st Hok Hget) as (Hok' & _ & _ & Hlt).
  split; [done|]. split; [|split].
  - unfold connect_to, bind. rewrite Hget. destruct r as [s|err]; [|done].
    simpl. apply heap_ok_set_list; [done | by apply Hlt].
  - unfold disconnect_from, bind. rewrite Hget. destruct r as [s|err]; [|done].
    unfold signal_disconnect, list_remove. unfold_monad.
    destruct (remove_first f (handlers_at (st_heap st) (sig_event_handlers s))); [|done].
    simpl. apply heap_ok_set_list; [done | by apply Hlt].
  - apply (heap_ok_new_list (bumped h)). by apply heap_ok_bumped.
Qed.




(** Disconnecting a registered handler succeeds and takes exactly one entry
    of it out of the list: the other entries stay, in their order. *)
Theorem disconnect_registered (self : signal) (f : value) (h : heap) (cs : list call) :
  f ∈ handlers_at h (sig_event_handlers self) ->
  exists hs',
    signal_disconnect self f (State h cs)
    = (Ok tt, State (set_list (sig_event_handlers self) hs' h) cs)
    /\ handlers_at (set_list (sig_event_handlers self) hs' h) (sig_event_handlers self) = hs'
    /\ handlers_at h (sig_event_handlers self) ≡ₚ f :: hs'
    /\ sublist hs' (handlers_at h (sig_event_handlers self)).
Proof.
  intros Hin.
  destruct (remove_first_member f _ Hin) as (pre & post & Hl & Hpre & Hrm).
  exists (pre ++ post). split; [|split; [apply handlers_at_set_list|split]].
  - unfold signal_disconnect, list_remove. unfold_monad. by rewrite Hrm.
  - rewrite Hl. by rewrite Permutation_middle.
  - rewrite Hl. apply sublist_app; [done|]. by apply sublist_cons.
Qed.

(** Events made from functions of different names keep different lists on
    one instance: connecting to one leaves the other's registrations. *)
Theorem events_isolated (f1 f2 : value) (e1 e2 : event) (instance g : value)
    (h : heap) (cs : list call) :
  event_init f1 = Ok e1 -> event_init f2 = Ok e2 -> f1 <> f2 ->
  has_dict instance = true -> heap_ok h ->
  exists h',
    connect_to e1 instance g (State h cs) = (Ok tt, State h' cs)
    /\ handlers_of e1 instance h' = handlers_of e1 instance h ++ [g]
    /\ handlers_of e2 instance h' = handlers_of e2 instance h.
Proof.
  intros H1 H2 Hne Hdict Hok.
  destruct (event_init_key _ _ H1) as (n1 & -> & _ & Hk1).
  destruct (event_init_key _ _ H2) as (n2 & -> & _ & Hk2).
  destruct (connect_to_ok e1 instance g h cs Hdict Hok) as (h' & Hc & _ & Hhs & Hoth).
  exists h'. split; [done|]. split; [done|].
  apply Hoth. intros [= Heq]. rewrite Hk1, Hk2 in Heq.
  cbv [String.append] in Heq. injection Heq as Heq. apply Hne. by rewrite Heq.
Qed.

Lemma lookup_key_absent (k : string) (kw : list (string * value)) :
  has_key k kw = false -> lookup_key k kw = None.
Proof.
  unfold has_key. intros Hk. apply bool_decide_eq_false in Hk.
  induction kw as [|[k' v] kw IH]; simpl in *; [done|].
  apply not_elem_of_cons in Hk as [Hne Hk].
  destruct (decide (k' = k)) as [->|_]; [done | by apply IH].
Qed.

Lemma remove_key_absent (k : string) (kw : list (string * value)) :
  has_key k kw = false -> remove_key k kw = kw.
Proof.
  unfold has_key, remove_key. intros Hk. apply bool_decide_eq_false in Hk.
  induction kw as [|[k' v] kw IH]; simpl in *; [done|].
  apply not_elem_of_cons in Hk as [Hne Hk].
  rewrite filter_cons_True by (simpl; congruence). by rewrite IH.
Qed.

(** How the function returned for access through the class reads its
    instance: leading [None]s are passed over; with no instance left it
    raises [TypeError] and does nothing; an instance given by keyword is
    taken out of the keyword arguments. *)
Theorem class_call_instance_argument (e : event) (owner : string) (n : nat)
    (pos : list value) (kw : list (string * value)) :
  has_key "instance" kw = false ->
  wrapper apply e owner (replicate n VNone ++ pos) kw = wrapper apply e owner pos kw
  /\ (forall st, wrapper apply e owner (replicate n VNone) kw st = (Raise TypeError, st))
  /\ (forall instance, instance <> VNone ->
        wrapper apply e owner (replicate n VNone) (("instance", instance) :: kw)
        = match n with
          | 0 => bound_call apply e instance (Arguments [] kw)
          | S _ => raise TypeError
          end).
Proof.
  intros Hkey.
  assert (Hskip : forall pos', wrapper apply e owner (replicate n VNone ++ pos') kw
                               = wrapper apply e owner pos' kw).
  { intros pos'. induction n as [|n IH]; simpl; [done|]. by rewrite Hkey. }
  split; [apply Hskip|]. split.
  - intros st. rewrite <- (app_nil_r (replicate n VNone)), Hskip. simpl.
    by rewrite (lookup_key_absent _ _ Hkey).
  - intros instance Hnone. destruct n as [|n]; simpl; [|done].
    assert (Hrm : remove_key "instance" (("instance", instance) :: kw) = kw).
    { unfold remove_key. rewrite filter_cons_False by (simpl; auto).
      by apply remove_key_absent. }
    rewrite Hrm. by destruct instance.
Qed.

(** With no handler registered the event is the decorated function: the
    invocation makes the one call and ends as that call ends, so arguments
    that do not fit the signature are refused also when nothing is
    connected. *)
Theorem emit_no_handlers (e : event) (instance : value) (a : arguments)
    (h : heap) (cs : list call) :
  has_dict instance = true -> heap_ok h ->
  handlers_of e instance h = [] ->
  exists s h1,
    event_get e instance (State h cs) = (Ok s, State h1 cs)
    /\ forall r h',
         apply (ev_function e) (Arguments (instance :: args a) (kwargs a)) h1 = (r, h') ->
         lists h' = lists h1 ->
         emit apply e instance a (State h cs)
         = (r, State h' (cs ++ [(ev_function e, Arguments (instance :: args a) (kwargs a))])).
Proof.
  intros Hdict Hok Hnone.
  destruct (event_get_ok e instance h cs Hdict Hok) as (s & h1 & Hget & _ & Hfun & _ & Hat & _).
  exists s, h1. split; [done|].
  intros r h' Hbase Hlists.
  unfold emit, bind. rewrite Hget.
  unfold signal_call, call_partial, call_value, list_copy, partial_arguments. unfold_monad.
  rewrite Hfun. simpl. rewrite Hbase. destruct r as [v|err]; [|done].
  simpl. unfold handlers_at in *. by rewrite Hlists, Hat, Hnone.
Qed.

(** A signal made without a handler list gets a list of its own: two such
    signals do not share, and their lists belong to no instance. *)
Theorem standalone_signals_own_lists (p1 p2 : partial) (f : value) (h : heap) (cs : list call) :
  heap_ok h ->
  exists s1 s2 h',
    (s1 <- signal_init p1 None ;;
     s2 <- signal_init p2 None ;;
     signal_connect s1 f ;;;
     ret (s1, s2)) (State h cs) = (Ok (s1, s2), State h' cs)
    /\ sig_event_handlers s1 <> sig_event_handlers s2
    /\ handlers_at h' (sig_event_handlers s1) = [f]
    /\ handlers_at h' (sig_event_handlers s2) = []
    /\ (forall e B, handlers_of e B h' = handlers_of e B h)
    /\ (forall k, attrs h' !! k <> Some (sig_event_handlers s1)
                 /\ attrs h' !! k <> Some (sig_event_handlers s2)).
Proof.
  intros Hok.
  set (n := next h).
  set (h1 := set_list (S n) [] (bumped (bumped h))).
  set (h2 := set_list (S (S (S n))) [] (bumped (bumped h1))).
  exists (Signal n p1 (S n)), (Signal (S (S n)) p2 (S (S (S n)))), (appended (S n) f h2).
  assert (H1 : handlers_at h2 (S n) = []).
  { unfold h2. rewrite handlers_at_set_list_ne by lia.
    rewrite !handlers_at_bumped. apply handlers_at_set_list. }
  split; [reflexivity|]. simpl.
  split; [lia|].
  split; [by rewrite handlers_at_appended, H1|].
  split. { unfold appended. rewrite handlers_at_set_list_ne by lia.
           apply handlers_at_set_list. }
  split.
  - intros e B. unfold handlers_of; simpl.
    destruct (attrs h !! (B, ev_key e)) as [l|] eqn:Hl; [|done].
    apply (heap_ok_attr_lt _ _ _ Hok) in Hl. fold n in Hl.
    unfold appended, h2, h1.
    rewrite !handlers_at_set_list_ne by lia. rewrite !handlers_at_bumped.
    rewrite handlers_at_set_list_ne by lia. by rewrite !handlers_at_bumped.
  - intros k. split; intros Hk; apply (heap_ok_attr_lt _ _ _ Hok) in Hk; fold n in Hk; lia.
Qed.



(** Connecting handlers one after the other registers them in that order
    behind the ones already there, and touches no other list. *)
Theorem connect_in_order (e : event) (instance : value) (hs : list value)
    (h : heap) (cs : list call) :
  has_dict instance = true -> heap_ok h ->
  exists h',
    for_each hs (connect_to e instance) (State h cs) = (Ok tt, State h' cs)
    /\ heap_ok h'
    /\ handlers_of e instance h' = handlers_of e instance h ++ hs
    /\ (forall e' B, (B, ev_key e') <> (instance, ev_key e) ->
          handlers_of e' B h' = handlers_of e' B h).
Proof.
  intros Hdict. revert h. induction hs as [|f fs IH]; intros h Hok; simpl.
  - exists h. split; [done|]. split; [done|]. by rewrite app_nil_r.
  - destruct (connect_to_ok e instance f h cs Hdict Hok) as (h1 & Hc & Hok1 & Hhs1 & Hoth1).
    destruct (IH h1 Hok1) as (h' & Hrest & Hok' & Hhs' & Hoth').
    exists h'. unfold bind. rewrite Hc. split; [done|]. split; [done|]. split.
    + rewrite Hhs', Hhs1. by rewrite <- app_assoc.
    + intros e' B Hne. by rewrite Hoth', Hoth1.
Qed.

(** Disconnecting through an instance a handler that is not registered
    there raises [ValueError] and keeps every registration; the access has
    still attached the list to the instance. *)
Theorem disconnect_unregistered (e : event) (instance f : value) (h : heap) (cs : list call) :
  has_dict instance = true -> heap_ok h ->
  f ∉ handlers_of e instance h ->
  exists h',
    disconnect_from e instance f (State h cs) = (Raise ValueError, State h' cs)
    /\ heap_ok h'
    /\ (forall e' B, handlers_of e' B h' = handlers_of e' B h)
    /\ is_Some (attrs h' !! (instance, ev_key e)).
Proof.
  intros Hdict Hok Hnotin.
  destruct (event_get_ok e instance h cs Hdict Hok)
    as (s & h1 & Hget & Hok1 & _ & Hattr & Hat & Hsame).
  exists h1. split; [|split; [done|split; [done|by eexists]]].
  unfold disconnect_from, bind. rewrite Hget.
  unfold signal_disconnect, list_remove. unfold_monad.
  rewrite Hat. by rewrite (remove_first_absent _ _ Hnotin).
Qed.

(** Access through the class with a value that cannot carry attributes
    raises [AttributeError]: nothing is called and no registration
    changes. *)
Theorem access_without_dict (e : event) (owner : string) (instance : value)
    (a : arguments) (h : heap) (cs : list call) :
  heap_ok h -> instance <> VNone -> has_dict instance = false ->
  attrs h !! (instance, ev_key e) = None ->
  has_key "instance" (kwargs a) = false ->
  exists h',
    unbound_call apply e owner instance a (State h cs) = (Raise AttributeError, State h' cs)
    /\ heap_ok h'
    /\ attrs h' = attrs h
    /\ (forall e' B, handlers_of e' B h' = handlers_of e' B h).
Proof.
  intros Hok Hnone Hdict Hattr Hkey.
  exists (set_list (next h) [] (bumped h)).
  split; [|split; [by apply heap_ok_new_list|split; [done|]]].
  - change (unbound_call apply e owner instance a)
      with (wrapper apply e owner (instance :: args a) (kwargs a)).
    simpl. rewrite Hkey.
    assert (Hget := event_get_no_dict e instance h cs Hattr Hdict).
    destruct instance; try done; unfold bind; by rewrite Hget.
  - intros e' B. by apply handlers_of_new_list.
Qed.

Lemma for_each_inv (a : arguments) (hs : list value) (h : heap) (cs : list call)
    (r : outcome unit) (st : state) :
  for_each hs (fun f => call_value apply f a) (State h cs) = (r, st) ->
  match r with
  | Ok _ =>
      all_return apply hs a h = Some (st_heap st)
      /\ st_calls st = cs ++ handler_calls hs a
  | Raise err =>
      exists pre f post h2,
        hs = pre ++ f :: post
        /\ all_return apply pre a h = Some h2
        /\ apply f a h2 = (Raise err, st_heap st)
        /\ st_calls st = cs ++ handler_calls pre a ++ [(f, a)]
  end.
Proof.
  revert h cs. induction hs as [|g gs IH]; intros h cs; simpl.
  - intros [= <- <-]. by rewrite app_nil_r.
  - unfold bind, call_value at 1; simpl.
    destruct (apply g a h) as [[v|err] h1] eqn:Hg.
    + intros Hrest. specialize (IH _ _ Hrest). destruct r as [[]|err].
      * destruct IH as [Hall Hcalls]. split; [done|]. by rewrite Hcalls, <- app_assoc.
      * destruct IH as (pre & f & post & h2 & -> & Hpre & Hf & Hcalls).
        exists (g :: pre), f, post, h2. simpl. rewrite Hg.
        split; [done|]. split; [done|]. split; [done|].
        by rewrite Hcalls, <- app_assoc.
    + intros [= <- <-]. exists [], g, gs, h. by simpl.
Qed.

(** Read backwards: an invocation that returns has called the base function
    and every handler of the snapshot, each of which returned, and returns
    the base function's value; an invocation that raises passes on,
    unchanged, the exception of the base function or of the first handler
    that raised. *)
Theorem signal_call_outcome (self : signal) (a : arguments) (h : heap) (cs : list call)
    (r : outcome value) (st : state) :
  signal_call apply self a (State h cs) = (r, st) ->
  let l := sig_event_handlers self in
  let base := apply (func (sig_function self)) (partial_arguments (sig_function self) a) h in
  match r with
  | Ok v =>
      exists h1,
        base = (Ok v, h1)
        /\ all_return apply (handlers_at h1 l) a h1 = Some (st_heap st)
        /\ st_calls st = cs ++ base_call self a :: handler_calls (handlers_at h1 l) a
  | Raise err =>
      (base = (Raise err, st_heap st) /\ st_calls st = cs ++ [base_call self a])
      \/ (exists v h1 pre f post h2,
            base = (Ok v, h1)
            /\ handlers_at h1 l = pre ++ f :: post
            /\ all_return apply pre a h1 = Some h2
            /\ apply f a h2 = (Raise err, st_heap st)
            /\ st_calls st = cs ++ base_call self a :: handler_calls pre a ++ [(f, a)])
  end.
Proof.
  intros Hcall l base. unfold base.
  unfold signal_call, call_partial, list_copy in Hcall. unfold_monad.
  unfold call_value at 1 in Hcall. simpl in Hcall.
  destruct (apply (func (sig_function self)) (partial_arguments (sig_function self) a) h)
    as [[v|err] h1] eqn:Hbase; simpl in Hcall.
  - destruct (for_each (handlers_at h1 (sig_event_handlers self))
                (fun f => call_value apply f a)
                (State h1 (cs ++ [(func (sig_function self),
                                   partial_arguments (sig_function self) a)])))
      as [r' st'] eqn:Hloop.
    apply for_each_inv in Hloop. destruct r' as [[]|err]; injection Hcall as <- <-.
    + destruct Hloop as [Hall Hcalls]. exists h1. split; [done|]. split; [done|].
      by rewrite Hcalls, <- app_assoc.
    + right. destruct Hloop as (pre & f & post & h2 & Hsnap & Hpre & Hf & Hcalls).
      exists v, h1, pre, f, post, h2. repeat (split; [done|]).
      by rewrite Hcalls, <- app_assoc.
  - injection Hcall as <- <-. by left.
Qed.

(** An event cannot be passed a keyword argument named [self]: the call
    through the instance raises [TypeError] when the arguments meet
    [__call__], after the access and before the base function. *)
Theorem bound_call_keyword_self (e : event) (instance : value) (a : arguments)
    (h : heap) (cs : list call) :
  has_dict instance = true -> heap_ok h ->
  has_key "self" (kwargs a) = true ->
  exists h',
    bound_call apply e instance a (State h cs) = (Raise TypeError, State h' cs)
    /\ heap_ok h'
    /\ (forall e' B, handlers_of e' B h' = handlers_of e' B h).
Proof.
  intros Hdict Hok Hkey.
  destruct (event_get_ok e instance h cs Hdict Hok) as (s & h1 & Hget & Hok1 & _ & _ & _ & Hsame).
  exists h1. split; [|by split].
  unfold bound_call, bind, call_signal. by rewrite Hget, Hkey.
Qed.

End More.

(** * The properties on the programs of [demo] *)

Example event_init_progress : event_init (VFunc "progress") = Ok progress.
Proof. reflexivity. Qed.

Example heap_ok_empty : heap_ok empty_heap.
Proof. by_deciding. Qed.

(** [a.progress("Hello", second="World")] with h1, h2, h3 connected. *)
Lemma signal_call_order_witness :
  let s := signal_with progress inst_a [VFunc "h1"; VFunc "h2"; VFunc "h3"] in
  let h := heap_with progress inst_a [VFunc "h1"; VFunc "h2"; VFunc "h3"] in
  result_of (signal_call py s hello) h = Ok (VInt 7)
  /\ calls_of (signal_call py s hello) h
     = [(VFunc "progress", Arguments [inst_a; VStr "Hello"] [("second", VStr "World")]);
        (VFunc "h1", hello); (VFunc "h2", hello); (VFunc "h3", hello)]
  /\ stdout (heap_of (signal_call py s hello) h) = ["Doing something..."; "Hello"; "World"].
Proof.
  intros s h.
  pose (h1 := (py (VFunc "progress") (partial_arguments (sig_function s) hello) h).2).
  pose (h2 := default h1 (all_return py (handlers_at h (sig_event_handlers s)) hello h1)).
  unfold result_of, calls_of, heap_of.
  rewrite (signal_call_order py s hello h h1 h2 (VInt 7) []) by by_running.
  repeat split; by_running.
Defined.

(** [a.progress(second="World")] does not fit [progress(self, first, second)];
    and a dispatch over h1, boom, h2 stops at boom. *)
Lemma signal_call_fail_fast_witness :
  let s := signal_with progress inst_a [VFunc "h1"] in
  let h := heap_with progress inst_a [VFunc "h1"] in
  let world := Arguments [] [("second", VStr "World")] in
  let s' := signal_with progress inst_a [VFunc "h1"; VFunc "boom"; VFunc "h2"] in
  let h' := heap_with progress inst_a [VFunc "h1"; VFunc "boom"; VFunc "h2"] in
  (result_of (signal_call py s world) h = Raise TypeError
   /\ calls_of (signal_call py s world) h
      = [(VFunc "progress", Arguments [inst_a] [("second", VStr "World")])])
  /\ (result_of (signal_call py s' hello) h' = Raise (Exception "boom")
      /\ calls_of (signal_call py s' hello) h'
         = [(VFunc "progress", Arguments [inst_a; VStr "Hello"] [("second", VStr "World")]);
            (VFunc "h1", hello); (VFunc "boom", hello)]).
Proof.
  intros s h world s' h'. unfold result_of, calls_of. split.
  - destruct (signal_call_fail_fast py s world h []) as [Hbase _].
    rewrite (Hbase TypeError h) by by_running.
    split; by_running.
  - destruct (signal_call_fail_fast py s' hello h' []) as [_ Hhandler].
    pose (h1 := (py (VFunc "progress") (partial_arguments (sig_function s') hello) h').2).
    pose (h2 := (py (VFunc "h1") hello h1).2).
    pose (h3 := (py (VFunc "boom") hello h2).2).
    rewrite (Hhandler (VInt 7) h1 [VFunc "h1"] (VFunc "boom") [VFunc "h2"] h2
               (Exception "boom") h3) by by_running.
    split; by_running.
Defined.

(** A handler on [b.progress] and one on [a.progress]: emitting
    [a.progress] calls only the latter. *)
Lemma instances_isolated_witness :
  let run_it := connect_to progress inst_b (VFunc "h2") ;;;
                connect_to progress inst_a (VFunc "h1") ;;;
                emit py progress inst_a hello in
  result_of run_it empty_heap = Ok (VInt 7)
  /\ calls_of run_it empty_heap
     = [(VFunc "progress", Arguments [inst_a; VStr "Hello"] [("second", VStr "World")]);
        (VFunc "h1", hello)]
  /\ handlers_of progress inst_b (heap_of run_it empty_heap) = [VFunc "h2"].
Proof.
  intros run_it.
  assert (Hok : heap_ok empty_heap) by by_deciding.
  assert (Hne : inst_a <> inst_b) by by_deciding.
  destruct (instances_isolated py progress inst_a inst_b (VFunc "h1") (VFunc "h2") hello
              empty_heap Hok Hne eq_refl eq_refl)
    as (sA & h2 & Hsetup & _ & _ & _ & Hcall).
  pose (sA0 := Signal 4 (Partial (VFunc "progress") inst_a) 2).
  pose (h20 := heap_of (connect_to progress inst_b (VFunc "h2") ;;;
                        connect_to progress inst_a (VFunc "h1") ;;;
                        event_get progress inst_a) empty_heap).
  assert (Hrun : on_heap (connect_to progress inst_b (VFunc "h2") ;;;
                          connect_to progress inst_a (VFunc "h1") ;;;
                          event_get progress inst_a) empty_heap = (Ok sA0, h20))
    by by_running.
  rewrite Hrun in Hsetup. injection Hsetup as <- <-.
  pose (h3 := (py (VFunc "progress") (Arguments (inst_a :: args hello) (kwargs hello)) h20).2).
  pose (h4 := (py (VFunc "h1") hello h3).2).
  unfold result_of, calls_of, heap_of, run_it.
  rewrite (Hcall (VInt 7) h3 h4) by by_running.
  repeat split; by_running.
Defined.

(** The handler [leave] disconnects itself: h1 after it still runs in this
    dispatch, and [leave] is gone in the next. *)
Lemma signal_call_snapshot_witness :
  let s := signal_with progress inst_a [VFunc "leave"; VFunc "h1"] in
  let h := heap_with progress inst_a [VFunc "leave"; VFunc "h1"] in
  let twice := signal_call py s hello ;;; signal_call py s hello in
  calls_of twice h
  = [(VFunc "progress", Arguments [inst_a; VStr "Hello"] [("second", VStr "World")]);
     (VFunc "leave", hello); (VFunc "h1", hello);
     (VFunc "progress", Arguments [inst_a; VStr "Hello"] [("second", VStr "World")]);
     (VFunc "h1", hello)]
  /\ handlers_of progress inst_a (heap_of twice h) = [VFunc "h1"].
Proof.
  intros s h twice.
  pose (base := partial_arguments (sig_function s) hello).
  pose (h1 := (py (VFunc "progress") base h).2).
  pose (h2 := default h1 (all_return py [VFunc "leave"; VFunc "h1"] hello h1)).
  pose (h3 := (py (VFunc "progress") base h2).2).
  pose (h4 := default h3 (all_return py [VFunc "h1"] hello h3)).
  unfold calls_of, heap_of, twice.
  rewrite (signal_call_snapshot py s hello hello h h1 h2 h3 h4 (VInt 7) (VInt 7) [])
    by by_running.
  split; by_running.
Defined.

(** With h2, h1, h1 registered: connecting h1 twice more makes four entries
    of it, each called by the next invocation; disconnecting h1 removes the
    first of them. *)
Lemma connect_twice_disconnect_first_witness :
  let s := signal_with progress inst_a [VFunc "h2"; VFunc "h1"; VFunc "h1"] in
  let h := heap_with progress inst_a [VFunc "h2"; VFunc "h1"; VFunc "h1"] in
  let h' := heap_of (signal_connect s (VFunc "h1") ;;; signal_connect s (VFunc "h1")) h in
  handlers_at h' (sig_event_handlers s)
  = [VFunc "h2"; VFunc "h1"; VFunc "h1"; VFunc "h1"; VFunc "h1"]
  /\ calls_of (signal_call py s hello) h'
     = [(VFunc "progress", Arguments [inst_a; VStr "Hello"] [("second", VStr "World")]);
        (VFunc "h2", hello); (VFunc "h1", hello); (VFunc "h1", hello);
        (VFunc "h1", hello); (VFunc "h1", hello)]
  /\ result_of (signal_disconnect s (VFunc "h1")) h = Ok tt
  /\ handlers_at (heap_of (signal_disconnect s (VFunc "h1")) h) (sig_event_handlers s)
     = [VFunc "h2"; VFunc "h1"].
Proof.
  intros s h h'.
  pose proof (connect_twice_disconnect_first py s (VFunc "h1") h []) as T.
  cbv zeta in T. destruct T as ((Hconnect & Hlist) & Hcall & Hdisconnect).
  assert (Hh' : h' = appended (sig_event_handlers s) (VFunc "h1")
                       (appended (sig_event_handlers s) (VFunc "h1") h)).
  { unfold h', heap_of. by rewrite Hconnect. }
  split; [rewrite Hh', Hlist; by_running|]. split.
  - pose (h1 := (py (VFunc "progress") (partial_arguments (sig_function s) hello) h').2).
    pose (h2 := default h1 (all_return py (handlers_at h' (sig_event_handlers s)) hello h1)).
    unfold calls_of. rewrite Hh'.
    rewrite (Hcall hello (VInt 7) h1 h2) by by_running.
    by_running.
  - assert (Hpre : VFunc "h1" ∉ [VFunc "h2"]) by by_deciding.
    destruct (Hdisconnect [VFunc "h2"] [VFunc "h1"]) as [E Hafter];
      [by_running | exact Hpre |].
    unfold result_of, heap_of. rewrite E. split; [reflexivity | by_running].
Defined.

(** h3 is not registered on [a.progress]. *)
Lemma disconnect_absent_witness :
  let s := signal_with progress inst_a [VFunc "h1"; VFunc "h2"] in
  let h := heap_with progress inst_a [VFunc "h1"; VFunc "h2"] in
  signal_disconnect s (VFunc "h3") (State h []) = (Raise ValueError, State h [])
  /\ handlers_at h (sig_event_handlers s) = [VFunc "h1"; VFunc "h2"].
Proof.
  intros s h. split; [|by_running].
  apply (disconnect_absent s (VFunc "h3") h []). by_deciding.
Defined.

(** The first [a.progress] on a new instance, a second one, and a handler
    connected through the first and called through the second. *)
Lemma first_access_attaches_witness :
  let base := Partial (VFunc "progress") inst_a in
  let twice := s1 <- event_get progress inst_a ;;
               signal_connect s1 (VFunc "h1") ;;;
               s2 <- event_get progress inst_a ;;
               signal_call py s2 hello in
  result_of (event_get progress inst_a) empty_heap = Ok (Signal 1 base 0)
  /\ lists (heap_of (event_get progress inst_a) empty_heap) !! 0 = Some []
  /\ attrs (heap_of (event_get progress inst_a) empty_heap) !! (inst_a, " progress") = Some 0
  /\ result_of (event_get progress inst_a ;;; event_get progress inst_a) empty_heap
     = Ok (Signal 2 base 0)
  /\ calls_of twice empty_heap
     = [(VFunc "progress", Arguments [inst_a; VStr "Hello"] [("second", VStr "World")]);
        (VFunc "h1", hello)].
Proof.
  intros base twice.
  assert (Hok : heap_ok empty_heap) by by_deciding.
  assert (Hnone : attrs empty_heap !! (inst_a, ev_key progress) = None) by by_running.
  pose proof (first_access_attaches py progress inst_a (VFunc "h1") empty_heap []
                eq_refl Hok Hnone) as T.
  cbv zeta in T. destruct T as ((Hfirst & _ & Hempty & Hattr) & _ & (Hsecond & _) & Hcall).
  unfold result_of, heap_of. rewrite Hfirst.
  split; [reflexivity|]. split; [exact Hempty|]. split; [exact Hattr|].
  split.
  - unfold bind. by rewrite Hfirst, Hsecond.
  - pose (h2 := heap_of (s1 <- event_get progress inst_a ;;
                         signal_connect s1 (VFunc "h1") ;;;
                         event_get progress inst_a) empty_heap).
    pose (h3 := (py (VFunc "progress") (Arguments (inst_a :: args hello) (kwargs hello)) h2).2).
    pose (h4 := (py (VFunc "h1") hello h3).2).
    unfold calls_of, twice.
    by rewrite (Hcall hello (VInt 7) h3 h4) by by_running.
Defined.

(** [start] connects [late] to its own event, and [late] runs in the same
    dispatch; [invite] connects h3 while the handlers run, and h3 does not. *)
Lemma snapshot_after_base_witness :
  let s := signal_with start inst_a [VFunc "h3"] in
  let h := heap_with start inst_a [VFunc "h3"] in
  let none := Arguments [] [] in
  let s' := signal_with progress inst_a [VFunc "invite"; VFunc "h1"] in
  let h' := heap_with progress inst_a [VFunc "invite"; VFunc "h1"] in
  calls_of (signal_call py s none) h
  = [(VFunc "start", Arguments [inst_a] []); (VFunc "h3", none); (VFunc "late", none)]
  /\ calls_of (signal_call py s' hello) h'
     = [(VFunc "progress", Arguments [inst_a; VStr "Hello"] [("second", VStr "World")]);
        (VFunc "invite", hello); (VFunc "h1", hello)]
  /\ handlers_of progress inst_a (heap_of (signal_call py s' hello) h')
     = [VFunc "invite"; VFunc "h1"; VFunc "h3"].
Proof.
  intros s h none s' h'. unfold calls_of, heap_of. split.
  - pose proof (snapshot_after_base py s none (VFunc "late") h []) as T.
    cbv zeta in T. destruct T as [Hbase _].
    pose (h1 := (py (VFunc "start") (partial_arguments (sig_function s) none) h).2).
    pose (h2 := default h1 (all_return py [VFunc "h3"; VFunc "late"] none h1)).
    rewrite (Hbase VNone h1 h2) by by_running.
    by_running.
  - pose proof (snapshot_after_base py s' hello (VFunc "h3") h' []) as T.
    cbv zeta in T. destruct T as [_ Hhandler].
    pose (h1 := (py (VFunc "progress") (partial_arguments (sig_function s') hello) h').2).
    pose (h2 := default h1 (all_return py [VFunc "invite"; VFunc "h1"] hello h1)).
    rewrite (Hhandler (VInt 7) h1 h2) by by_running.
    split; by_running.
Defined.

(** [connect] takes what is not callable; the next invocation fails when it
    comes to call it. *)
Example connect_not_callable :
  let s := signal_with progress inst_a [VFunc "h1"] in
  let h := heap_with progress inst_a [VFunc "h1"] in
  let h' := heap_of (signal_connect s (VInt 3)) h in
  result_of (signal_connect s (VInt 3)) h = Ok tt
  /\ handlers_at h' (sig_event_handlers s) = [VFunc "h1"; VInt 3]
  /\ result_of (signal_call py s hello) h' = Raise TypeError.
Proof. repeat split; by_running. Qed.

(** C4: the call through the class, [A.notify(a, instance=3)], raises
    [TypeError] before anything is called, because the keyword meets the
    wrapper's own parameter [instance]; the call through the instance,
    [a.notify(instance=3)], calls the base function and the handler. *)
Theorem unbound_call_keyword_instance :
  let h := heap_of (connect_to notify inst_a (VFunc "log")) empty_heap in
  let a := Arguments [] [("instance", VInt 3)] in
  (result_of (bound_call py notify inst_a a) h = Ok VNone
   /\ calls_of (bound_call py notify inst_a a) h
      = [(VFunc "notify", Arguments [inst_a] [("instance", VInt 3)]); (VFunc "log", a)]
   /\ stdout (heap_of (bound_call py notify inst_a a) h) = ["Doing something..."; "3"])
  /\ (result_of (unbound_call py notify "A" inst_a a) h = Raise TypeError
      /\ calls_of (unbound_call py notify "A" inst_a a) h = []
      /\ heap_of (unbound_call py notify "A" inst_a a) h = h).
Proof. repeat split; by_running. Qed.

(** With positional arguments, as in [A.progress(a, "Hello", "Y")], both
    calls do the same. *)
Lemma unbound_call_bound_call_witness :
  let h := heap_with progress inst_a [VFunc "h1"] in
  let a := Arguments [VStr "Hello"; VStr "Y"] [] in
  unbound_call py progress "A" inst_a a (State h [])
  = bound_call py progress inst_a a (State h [])
  /\ calls_of (unbound_call py progress "A" inst_a a) h
     = [(VFunc "progress", Arguments [inst_a; VStr "Hello"; VStr "Y"] []); (VFunc "h1", a)].
Proof.
  intros h a. split; [|by_running].
  assert (Hinst : inst_a <> VNone) by by_deciding.
  by rewrite (unbound_call_bound_call py progress "A" inst_a a Hinst eq_refl).
Defined.

(** * The further properties on the programs of [demo] *)

Lemma operations_keep_heap_ok_witness :
  heap_ok (st_heap (event_get progress inst_a (State empty_heap [])).2)
  /\ heap_ok (st_heap (connect_to progress inst_a (VFunc "h1") (State empty_heap [])).2)
  /\ heap_ok (st_heap (disconnect_from progress inst_a (VFunc "h1") (State empty_heap [])).2)
  /\ heap_ok (st_heap (signal_init (Partial (VFunc "progress") inst_a) None
                         (State empty_heap [])).2).
Proof.
  assert (Hok : heap_ok empty_heap) by by_deciding.
  exact (operations_keep_heap_ok progress inst_a (VFunc "h1")
           (Partial (VFunc "progress") inst_a) empty_heap [] Hok).
Defined.


Lemma disconnect_registered_witness :
  let s := signal_with progress inst_a [VFunc "h1"; VFunc "h2"; VFunc "h1"] in
  let h := heap_with progress inst_a [VFunc "h1"; VFunc "h2"; VFunc "h1"] in
  exists hs',
    signal_disconnect s (VFunc "h2") (State h [])
    = (Ok tt, State (set_list (sig_event_handlers s) hs' h) [])
    /\ handlers_at (set_list (sig_event_handlers s) hs' h) (sig_event_handlers s) = hs'
    /\ handlers_at h (sig_event_handlers s) ≡ₚ VFunc "h2" :: hs'
    /\ sublist hs' (handlers_at h (sig_event_handlers s)).
Proof.
  intros s h.
  assert (Hin : VFunc "h2" ∈ handlers_at h (sig_event_handlers s)) by by_deciding.
  exact (disconnect_registered s (VFunc "h2") h [] Hin).
Defined.

(** [a.progress] and [a.start] *)
Lemma events_isolated_witness :
  exists h',
    connect_to progress inst_a (VFunc "h1") (State empty_heap []) = (Ok tt, State h' [])
    /\ handlers_of progress inst_a h' = handlers_of progress inst_a empty_heap ++ [VFunc "h1"]
    /\ handlers_of start inst_a h' = handlers_of start inst_a empty_heap.
Proof.
  assert (Hok : heap_ok empty_heap) by by_deciding.
  assert (Hne : VFunc "progress" <> VFunc "start") by by_deciding.
  exact (events_isolated (VFunc "progress") (VFunc "start") progress start inst_a (VFunc "h1")
           empty_heap [] eq_refl eq_refl Hne eq_refl Hok).
Defined.

(** [A.progress(None, None, a, "Hello", second="World")] *)
Lemma class_call_instance_argument_witness :
  let kw := [("second", VStr "World")] in
  wrapper py progress "A" (replicate 2 VNone ++ [inst_a; VStr "Hello"]) kw
  = wrapper py progress "A" [inst_a; VStr "Hello"] kw
  /\ (forall st, wrapper py progress "A" (replicate 2 VNone) kw st = (Raise TypeError, st))
  /\ (forall instance, instance <> VNone ->
        wrapper py progress "A" (replicate 2 VNone) (("instance", instance) :: kw)
        = raise TypeError).
Proof.
  intros kw.
  exact (class_call_instance_argument py progress "A" 2 [inst_a; VStr "Hello"] kw eq_refl).
Defined.

(** [a.progress(second="World")] on a new instance: refused though nothing
    is connected. *)
Lemma emit_no_handlers_witness :
  let a := Arguments [] [("second", VStr "World")] in
  result_of (emit py progress inst_a a) empty_heap = Raise TypeError
  /\ calls_of (emit py progress inst_a a) empty_heap
     = [(VFunc "progress", Arguments [inst_a] [("second", VStr "World")])].
Proof.
  intros a.
  assert (Hok : heap_ok empty_heap) by by_deciding.
  destruct (emit_no_handlers py progress inst_a a empty_heap [] eq_refl Hok eq_refl)
    as (s & h1 & Hget & Hemit).
  pose (s0 := Signal 1 (Partial (VFunc "progress") inst_a) 0).
  pose (h0 := heap_of (event_get progress inst_a) empty_heap).
  assert (Hrun : event_get progress inst_a (State empty_heap []) = (Ok s0, State h0 []))
    by by_running.
  rewrite Hrun in Hget. injection Hget as <- <-.
  unfold result_of, calls_of.
  rewrite (Hemit (Raise TypeError) h0) by by_running.
  split; by_running.
Defined.

Lemma standalone_signals_own_lists_witness :
  let p := Partial (VFunc "progress") inst_a in
  exists s1 s2 h',
    (s1 <- signal_init p None ;;
     s2 <- signal_init p None ;;
     signal_connect s1 (VFunc "h1") ;;;
     ret (s1, s2)) (State empty_heap []) = (Ok (s1, s2), State h' [])
    /\ sig_event_handlers s1 <> sig_event_handlers s2
    /\ handlers_at h' (sig_event_handlers s1) = [VFunc "h1"]
    /\ handlers_at h' (sig_event_handlers s2) = []
    /\ (forall e B, handlers_of e B h' = handlers_of e B empty_heap)
    /\ (forall k, attrs h' !! k <> Some (sig_event_handlers s1)
                 /\ attrs h' !! k <> Some (sig_event_handlers s2)).
Proof.
  intros p.
  assert (Hok : heap_ok empty_heap) by by_deciding.
  exact (standalone_signals_own_lists p p (VFunc "h1") empty_heap [] Hok).
Defined.


Lemma connect_in_order_witness :
  exists h',
    for_each [VFunc "h1"; VFunc "h2"; VFunc "h1"] (connect_to progress inst_a)
      (State empty_heap []) = (Ok tt, State h' [])
    /\ heap_ok h'
    /\ handlers_of progress inst_a h'
       = handlers_of progress inst_a empty_heap ++ [VFunc "h1"; VFunc "h2"; VFunc "h1"]
    /\ (forall e' B, (B, ev_key e') <> (inst_a, ev_key progress) ->
          handlers_of e' B h' = handlers_of e' B empty_heap).
Proof.
  assert (Hok : heap_ok empty_heap) by by_deciding.
  exact (connect_in_order progress inst_a [VFunc "h1"; VFunc "h2"; VFunc "h1"]
           empty_heap [] eq_refl Hok).
Defined.

(** [b.progress.disconnect(h1)] before anything was connected to b. *)
Lemma disconnect_unregistered_witness :
  exists h',
    disconnect_from progress inst_b (VFunc "h1") (State empty_heap [])
    = (Raise ValueError, State h' [])
    /\ heap_ok h'
    /\ (forall e' B, handlers_of e' B h' = handlers_of e' B empty_heap)
    /\ is_Some (attrs h' !! (inst_b, ev_key progress)).
Proof.
  assert (Hok : heap_ok empty_heap) by by_deciding.
  assert (Hnotin : VFunc "h1" ∉ handlers_of progress inst_b empty_heap) by by_deciding.
  exact (disconnect_unregistered progress inst_b (VFunc "h1") empty_heap [] eq_refl Hok Hnotin).
Defined.

(** [A.progress(3, "Hello", second="World")] *)
Lemma access_without_dict_witness :
  exists h',
    unbound_call py progress "A" (VInt 3) hello (State empty_heap [])
    = (Raise AttributeError, State h' [])
    /\ heap_ok h'
    /\ attrs h' = attrs empty_heap
    /\ (forall e' B, handlers_of e' B h' = handlers_of e' B empty_heap).
Proof.
  assert (Hok : heap_ok empty_heap) by by_deciding.
  assert (Hne : VInt 3 <> VNone) by by_deciding.
  assert (Hattr : attrs empty_heap !! (VInt 3, ev_key progress) = None) by by_running.
  exact (access_without_dict py progress "A" (VInt 3) hello empty_heap []
           Hok Hne eq_refl Hattr eq_refl).
Defined.

(** The dispatch over h1, boom, h2 raised what boom raised. *)
Lemma signal_call_outcome_witness :
  let s := signal_with progress inst_a [VFunc "h1"; VFunc "boom"; VFunc "h2"] in
  let h := heap_with progress inst_a [VFunc "h1"; VFunc "boom"; VFunc "h2"] in
  let st := (signal_call py s hello (State h [])).2 in
  let l := sig_event_handlers s in
  let base := py (func (sig_function s)) (partial_arguments (sig_function s) hello) h in
  (base = (Raise (Exception "boom"), st_heap st) /\ st_calls st = [] ++ [base_call s hello])
  \/ (exists v h1 pre f post h2,
        base = (Ok v, h1)
        /\ handlers_at h1 l = pre ++ f :: post
        /\ all_return py pre hello h1 = Some h2
        /\ py f hello h2 = (Raise (Exception "boom"), st_heap st)
        /\ st_calls st = [] ++ base_call s hello :: handler_calls pre hello ++ [(f, hello)]).
Proof.
  intros s h st.
  apply (signal_call_outcome py s hello h [] (Raise (Exception "boom")) st).
  by_running.
Defined.

(** [a.progress(self=1)] *)
Lemma bound_call_keyword_self_witness :
  exists h',
    bound_call py progress inst_a (Arguments [] [("self", VInt 1)]) (State empty_heap [])
    = (Raise TypeError, State h' [])
    /\ heap_ok h'
    /\ (forall e' B, handlers_of e' B h' = handlers_of e' B empty_heap).
Proof.
  assert (Hok : heap_ok empty_heap) by by_deciding.
  exact (bound_call_keyword_self py progress inst_a (Arguments [] [("self", VInt 1)])
           empty_heap [] eq_refl Hok eq_refl).
Defined.
